(** * Langchain_101: the business-advisor pipeline, the agent wrapper and the
      tool-usage judge

    A shallow embedding of
    - [1_Fundamentals/business_advisor_lcel.py]: the LCEL pipeline
      [e2e_chain] with its audit list [logs];
    - [2_Tools_and_RAG/ecohome_solution/agent.py]: [Agent.invoke] and
      [Judge.evaluate_tool_usage];
    - [1_Fundamentals/prompt_routing_langGraph.py]: the router, of which the
      file gives the statement only.

    Python dictionaries are [gmap string _], Python sets are [gset string],
    the module-level list [logs] is a field of the process state, and an
    exception is the left summand of a result that still carries the state
    reached when it was raised. *)

From Stdlib Require Import QArith Ascii.
From stdpp Require Import gmap strings list fin_maps.

Set Warnings "-register-all,-notation-overridden,-clear-no-such-hyp".

(** ** Values *)

(** The Python values that travel in a pipeline dictionary: the text produced
    by [StrOutputParser] and the [None] returned by [list.append]. *)
Inductive PyVal : Type :=
| PStr (s : string)
| PNone.

(** What [str.format] writes for a value. *)
Definition py_str (v : PyVal) : string :=
  match v with
  | PStr s => s
  | PNone => "None"
  end.

(** The raw chat-model response: its text and the provider's metadata. *)
Record AIMessage : Type := mkAIMessage {
  content : string;
  response_metadata : list (string * string)
}.

(** The exceptions that can leave the pipeline. *)
Inductive Exn : Type :=
| KeyError (key : string)
| ValidationError (field : string)
| EndpointError (detail : string).

(** The arguments a model hands back for a structured answer. An object is
    an association list; the first binding of a name is the one read. *)
Inductive JSON : Type :=
| JNull
| JBool (b : bool)
| JNum (n : Z)
| JStr (s : string)
| JArr (items : list JSON)
| JObj (members : list (string * JSON)).

(** ** Prompt templates *)

Inductive Segment : Type :=
| Lit (text : string)
| Var (name : string).

(** The f-string reading of a template: text outside braces is literal, the
    text between [{] and [}] names an input variable. [acc] is the piece
    being read and [in_var] tells whether a brace is open. *)
Fixpoint scan_template (s acc : string) (in_var : bool) : list Segment :=
  match s with
  | EmptyString => if in_var then [] else [Lit acc]
  | String c rest =>
      if in_var then
        if Ascii.eqb c "}"%char then Var acc :: scan_template rest "" false
        else scan_template rest (acc +:+ String c "") true
      else
        if Ascii.eqb c "{"%char then Lit acc :: scan_template rest "" true
        else scan_template rest (acc +:+ String c "") false
  end.

Record PromptTemplate : Type := mkPromptTemplate { template : string }.

Definition input_segments (p : PromptTemplate) : list Segment :=
  scan_template (template p) "" false.

(** [PromptTemplate.invoke]: every variable of the template is looked up in
    the input dictionary; a missing one raises [KeyError]. *)
Fixpoint render (segs : list Segment) (x : gmap string PyVal) : Exn + string :=
  match segs with
  | [] => inr ""
  | Lit t :: rest =>
      match render rest x with
      | inr r => inr (t +:+ r)
      | inl e => inl e
      end
  | Var k :: rest =>
      match x !! k with
      | None => inl (KeyError k)
      | Some v =>
          match render rest x with
          | inr r => inr (py_str v +:+ r)
          | inl e => inl e
          end
      end
  end.

Definition format_prompt (p : PromptTemplate) (x : gmap string PyVal) : Exn + string :=
  render (input_segments p) x.

Definition idea_prompt : PromptTemplate :=
  mkPromptTemplate
    "You are a startup expert and consultant. Give an innovative business idea for the sector: {industry}. Give a name and a short concept.".

Definition analysis_prompt : PromptTemplate :=
  mkPromptTemplate
    "Analyze this business idea. Give 3 strengths and 3 weaknesses: {idea_text}".

Definition report_prompt : PromptTemplate :=
  mkPromptTemplate
    ("Based on the following analysis: {analysed_output}, "
     +:+ "generate a formal structured report extracting only the key points.").

(** ** The structured report *)

(** [class AnalysisReport(BaseModel)]: two [List[str]] fields, each with
    [Field(default=[])]. *)
Record AnalysisReport : Type := mkAnalysisReport {
  strengths : list string;
  weaknesses : list string
}.

Definition json_str (j : JSON) : option string :=
  match j with
  | JStr s => Some s
  | _ => None
  end.

Fixpoint json_member (k : string) (members : list (string * JSON)) : option JSON :=
  match members with
  | [] => None
  | (k', v) :: rest => if String.eqb k' k then Some v else json_member k rest
  end.

(** One [List[str]] field with default [[]]: an absent field takes the
    default, an array of strings is taken as it is, anything else is a
    validation error naming the field. *)
Definition validate_list_str (field : string) (v : option JSON) : Exn + list string :=
  match v with
  | None => inr []
  | Some (JArr items) =>
      match mapM json_str items with
      | Some l => inr l
      | None => inl (ValidationError field)
      end
  | Some _ => inl (ValidationError field)
  end.

(** Validation of a model answer against [AnalysisReport]. *)
Definition AnalysisReport_validate (j : JSON) : Exn + AnalysisReport :=
  match j with
  | JObj members =>
      match validate_list_str "strengths" (json_member "strengths" members) with
      | inl e => inl e
      | inr s =>
          match validate_list_str "weaknesses" (json_member "weaknesses" members) with
          | inl e => inl e
          | inr w => inr (mkAnalysisReport s w)
          end
      end
  | _ => inl (ValidationError "AnalysisReport")
  end.

(** ** Key-bridging lambdas *)

(** [lambda x: {target: x["output"]}]; subscripting a dictionary without the
    key raises [KeyError]. *)
Definition bridge (target : string) (x : gmap string PyVal) : Exn + gmap string PyVal :=
  match x !! "output" with
  | Some v => inr {[ target := v ]}
  | None => inl (KeyError "output")
  end.

(** [lambda x: {"idea_text": x["output"]}] *)
Definition bridge_idea_text : gmap string PyVal → Exn + gmap string PyVal :=
  bridge "idea_text".

(** [lambda x: {"analysed_output": x["output"]}] *)
Definition bridge_analysed_output : gmap string PyVal → Exn + gmap string PyVal :=
  bridge "analysed_output".

(** Two applications in a row of a step that may raise: the second one runs
    on what the first returned, and an exception of the first is kept. *)
Definition twice {A} (f : A → Exn + A) (x : A) : Exn + A :=
  match f x with
  | inr y => f y
  | inl e => inl e
  end.

(** ** The pipeline *)

Section Pipeline.

(** The remote model is outside the program: [World] is whatever decides
    its answers, and each call may change it. [llm_invoke] is the chat
    call, [llm_structured] the call bound to the report schema, which
    returns the arguments the model produced. *)
Context {World : Type}.
Variable llm_invoke : string → World → (Exn + AIMessage) * World.
Variable llm_structured : string → World → (Exn + JSON) * World.

(** One model invocation as the history keeps it: which endpoint, the prompt
    sent, and the world and the audit list as they stood when the invocation
    began. *)
Record Call : Type := mkCall {
  call_structured : bool;
  call_prompt : string;
  call_world : World;
  call_logs : list AIMessage
}.

(** The process state: the module-level list [logs], the world behind the
    endpoint, and the history of model invocations ([calls] is not a Python
    variable; it only records what was invoked and when). *)
Record PState : Type := mkPState {
  logs : list AIMessage;
  world : World;
  calls : list Call
}.

(** The state once an invocation begun in [s] has come back with world [w]. *)
Definition record_call (structured : bool) (prompt : string) (w : World) (s : PState) : PState :=
  mkPState (logs s) w (calls s ++ [mkCall structured prompt (world s) (logs s)]).

(** [logs.append(x)] *)
Definition append_log (x : AIMessage) (s : PState) : PState :=
  mkPState (logs s ++ [x]) (world s) (calls s).

(** A computation reads and writes the state and either returns or raises;
    the state survives a raise, as the list [logs] survives an exception. *)
Definition M (A : Type) : Type := PState → (Exn + A) * PState.

Definition ret {A} (a : A) : M A := λ s, (inr a, s).

Definition lift {A} (r : Exn + A) : M A := λ s, (r, s).

Definition bind {A B} (m : M A) (k : A → M B) : M B :=
  λ s, match m s with
       | (inr a, s') => k a s'
       | (inl e, s') => (inl e, s')
       end.

Notation "x <~ m ;; k" := (bind m (λ x, k))
  (at level 100, m at next level, right associativity).

(** A runnable, and [f | g] of LCEL. *)
Definition Runnable (A B : Type) : Type := A → M B.

Definition pipe {A B C} (f : Runnable A B) (g : Runnable B C) : Runnable A C :=
  λ x, bind (f x) g.

Notation "f |> g" := (pipe f g) (at level 50, left associativity).

(** A plain function used as a pipeline step. *)
Definition RunnableLambda {A B} (f : A → Exn + B) : Runnable A B :=
  λ x, lift (f x).

Definition prompt_step (p : PromptTemplate) : Runnable (gmap string PyVal) string :=
  RunnableLambda (format_prompt p).

(** [llm]: one chat invocation. *)
Definition llm : Runnable string AIMessage :=
  λ prompt s,
    let '(r, w) := llm_invoke prompt (world s) in
    (r, record_call false prompt w s).

(** [llm.with_structured_output(schema)]: one invocation whose answer is
    validated against the schema. *)
Definition llm_with_structured_output {R} (validate : JSON → Exn + R) : Runnable string R :=
  λ prompt s,
    let '(r, w) := llm_structured prompt (world s) in
    match r with
    | inl e => (inl e, record_call true prompt w s)
    | inr j => (validate j, record_call true prompt w s)
    end.

(** [parser = StrOutputParser()] *)
Definition parser : Runnable AIMessage string := λ x, ret (content x).

(** [lambda x: logs.append(x)]; [list.append] returns [None]. *)
Definition log_append : Runnable AIMessage PyVal :=
  λ x s, (inr PNone, append_log x s).

(** [RunnableParallel(output=parser, log=RunnableLambda(...))]: both
    branches get the same message, and the step returns once both are
    done. *)
Definition parse_and_log_output_chain : Runnable AIMessage (gmap string PyVal) :=
  λ x,
    out <~ parser x ;;
    lg <~ log_append x ;;
    ret ({[ "output" := PStr out; "log" := lg ]} : gmap string PyVal).

Definition idea_chain : Runnable (gmap string PyVal) (gmap string PyVal) :=
  prompt_step idea_prompt |> llm |> parse_and_log_output_chain.

Definition analysis_chain : Runnable (gmap string PyVal) (gmap string PyVal) :=
  prompt_step analysis_prompt |> llm |> parse_and_log_output_chain.

Definition report_chain : Runnable (gmap string PyVal) AnalysisReport :=
  prompt_step report_prompt |> llm_with_structured_output AnalysisReport_validate.

Definition e2e_chain : Runnable (gmap string PyVal) AnalysisReport :=
  idea_chain
  |> RunnableLambda bridge_idea_text
  |> analysis_chain
  |> RunnableLambda bridge_analysed_output
  |> report_chain.

(** [n] invocations of [e2e_chain] in one process, one after the other, each
    of them returning a report. *)
Inductive successful_runs : nat → PState → PState → Prop :=
| runs_none s : successful_runs 0 s s
| runs_more n inp r s s' s'' :
    e2e_chain inp s = (inr r, s') →
    successful_runs n s' s'' →
    successful_runs (S n) s s''.

End Pipeline.

Arguments Call : clear implicits.
Arguments PState : clear implicits.

(** The prompts of the second and third stage, written out. *)
Definition analysis_text (idea_text : string) : string :=
  "Analyze this business idea. Give 3 strengths and 3 weaknesses: " +:+ idea_text.

Definition report_text (analysed_output : string) : string :=
  "Based on the following analysis: " +:+ analysed_output
  +:+ ", generate a formal structured report extracting only the key points.".

(** ** The agent wrapper (agent.py) *)

Module Agent.
Section Invoke.

(** [self.graph.invoke], whatever it answers. *)
Context {Response : Type}.
Variable graph_invoke : gmap string (list (string * string)) → Response.

(** The list [messages] as [invoke] builds it; [if context:] holds for a
    string that is not empty, and fails for [None] and for [""]. *)
Definition messages_of (question : string) (context : option string) : list (string * string) :=
  let messages : list (string * string) := [] in
  let messages :=
    match context with
    | Some c => if String.eqb c "" then messages else (messages ++ [("system", c)])%list
    | None => messages
    end in
  (messages ++ [("user", question)])%list.

Definition invoke (question : string) (context : option string) : Response :=
  graph_invoke {[ "messages" := messages_of question context ]}.

End Invoke.
End Agent.

(** ** The judge (agent.py) *)

Module Judge.

(** [len(a) / len(b)]: Python's true division of two integers, kept as the
    exact quotient (the float returned is that quotient rounded). *)
Definition true_div (a b : nat) : Q := (inject_Z (Z.of_nat a) / inject_Z (Z.of_nat b))%Q.

Definition evaluate_tool_usage (actual_tools expected_tools : list string) : gmap string Q :=
  let actual : gset string := list_to_set actual_tools in
  let expected : gset string := list_to_set expected_tools in
  let correct_calls := actual ∩ expected in
  let appropriateness :=
    if decide (actual ≠ ∅) then true_div (size correct_calls) (size actual)
    else (if decide (expected = ∅) then 1%Q else 0%Q) in
  let completeness :=
    if decide (expected ≠ ∅) then true_div (size correct_calls) (size expected)
    else 1%Q in
  {[ "TOOL_APPROPRIATENESS" := appropriateness;
     "TOOL_COMPLETENESS" := completeness ]}.

End Judge.

(** ** The router (prompt_routing_langGraph.py) *)

Module Routing.

(** Modelled from the spec: the outcome of the routing entry point, which
    the file does not define (it holds the statement of the exercise and its
    imports only). Section 6: the transformed string, or an explicit
    invalid-action indicator; it carries the tag that was given. *)
Inductive Outcome : Type :=
| Transformed (text : string)
| InvalidAction (action : string).

(** Modelled from the spec: the named transformation nodes of the graph,
    absent from the file. Section 4.5 names reverse text and uppercase
    text. *)
Inductive Node : Type :=
| reverse_node
| upper_node.

(** Modelled from the spec: what the uppercase node does to one character,
    absent from the file; the letters a to z are raised, as [str.upper] does
    on ASCII text. *)
Definition upper_ascii (c : ascii) : ascii :=
  let n := nat_of_ascii c in
  if decide (97 ≤ n ∧ n ≤ 122) then ascii_of_nat (n - 32) else c.

(** Modelled from the spec: the uppercase node, absent from the file. *)
Fixpoint upper_text (s : string) : string :=
  match s with
  | EmptyString => EmptyString
  | String c rest => String (upper_ascii c) (upper_text rest)
  end.

(** Modelled from the spec: the two node functions, absent from the file. *)
Definition run_node (n : Node) (input : string) : string :=
  match n with
  | reverse_node => String.rev input
  | upper_node => upper_text input
  end.

(** Modelled from the spec: the conditional edge, absent from the file.
    Sections 4.5 and 7: the action tag selects one of the named nodes, and a
    tag outside the known set selects none. *)
Definition route (action : string) : option Node :=
  if String.eqb action "reverse" then Some reverse_node
  else if String.eqb action "upper" then Some upper_node
  else None.

(** Modelled from the spec: the routing entry point, absent from the file.
    A selected node transforms the input; an unrecognized tag ends in the
    invalid-action terminal instead of a default node. *)
Definition run (input action : string) : Outcome :=
  match route action with
  | Some n => Transformed (run_node n input)
  | None => InvalidAction action
  end.

End Routing.

(** ** A scripted endpoint *)

(** A stand-in for the remote model, used to run the pipeline on concrete
    inputs: the world is the number of calls made so far, and the chat call
    fails at the call numbered [fail_at], if any. *)
Module Scripted.

Definition chat (fail_at : option nat) (prompt : string) (n : nat) : (Exn + AIMessage) * nat :=
  if decide (fail_at = Some n) then (inl (EndpointError "429 rate limit"), S n)
  else (inr (mkAIMessage
              (match n with
               | O => "AgroSense: soil sensors rented to small farms."
               | _ => "Strengths: local, cheap, simple. Weaknesses: seasonal, fragile, niche."
               end)
              [("model_name", "gemini-2.5-flash")]), S n).

Definition structured (prompt : string) (n : nat) : (Exn + JSON) * nat :=
  (inr (JObj [("strengths", JArr [JStr "local sourcing"; JStr "low capex"])]), S n).

Definition fresh : PState nat := mkPState [] 0 [].

Definition agro : gmap string PyVal := {[ "industry" := PStr "agro" ]}.

Definition agro_prompt : string :=
  "You are a startup expert and consultant. Give an innovative business idea for the sector: agro. Give a name and a short concept.".

Definition idea_message : AIMessage :=
  mkAIMessage "AgroSense: soil sensors rented to small farms."
              [("model_name", "gemini-2.5-flash")].

(** The dictionary the tee returns for [idea_message]. *)
Definition tee_output : gmap string PyVal :=
  {[ "output" := PStr (content idea_message); "log" := PNone ]}.

(** A state that already has the key the first bridge produces. *)
Definition bridged : gmap string PyVal :=
  {[ "idea_text" := PStr (content idea_message) ]}.

End Scripted.

(** ** The execution block (business_advisor_lcel.py) *)

(** One [print] of the execution block, with the values its f-string
    interpolates. *)
Inductive Line : Type :=
| StartingLine
| GraphAsciiLine
| FinalReportLine
| StrengthsLine (strengths : list string)
| WeaknessesLine (weaknesses : list string)
| AuditTrailLine (steps : nat)
| LogSnippetLine (number : nat) (snippet : string)
| FailedLine (e : Exn).

(** A Python [str] is a sequence of characters (code points); a string here
    holds its UTF-8 bytes. A byte of the form 10xxxxxx continues the
    character begun by the byte before it; every other byte begins one. *)
Definition continues_char (c : ascii) : bool :=
  match c with
  | Ascii _ _ _ _ _ _ b6 b7 => b7 && negb b6
  end.

(** [len(text)]: the number of characters. *)
Fixpoint str_len (text : string) : nat :=
  match text with
  | EmptyString => 0
  | String c rest => (if continues_char c then 0 else 1) + str_len rest
  end.

(** [text[:n]]: the first [n] characters, or all of them when there are
    fewer; the bytes of a character are kept together. *)
Fixpoint slice_to (n : nat) (text : string) : string :=
  match text with
  | EmptyString => EmptyString
  | String c rest =>
      if continues_char c then String c (slice_to n rest)
      else
        match n with
        | O => EmptyString
        | S n' => String c (slice_to n' rest)
        end
  end.

(** [for i, message in enumerate(logs): print(f"  > Log {i+1} Snippet:
    {message.content[:60]}...")] *)
Definition log_lines (logs : list AIMessage) : list Line :=
  imap (λ i message, LogSnippetLine (i + 1) (slice_to 60 (content message))) logs.

Section Main.

Context {World : Type}.
Variable llm_invoke : string → World → (Exn + AIMessage) * World.
Variable llm_structured : string → World → (Exn + JSON) * World.

(** The block under [if __name__ == "__main__":]: what it prints, and the
    state it leaves. The [try] catches every exception of the chain. *)
Definition main (s : PState World) : list Line * PState World :=
  let printed := [StartingLine; GraphAsciiLine] in
  match e2e_chain llm_invoke llm_structured {[ "industry" := PStr "agro" ]} s with
  | (inr final_report, s') =>
      (printed
         ++ [FinalReportLine;
             StrengthsLine (strengths final_report);
             WeaknessesLine (weaknesses final_report);
             AuditTrailLine (length (logs s'))]
         ++ log_lines (logs s'),
       s')
  | (inl e, s') => (printed ++ [FailedLine e], s')
  end.

End Main.

(** More scripted endpoints: a structured call that fails, and one whose
    answer gives [strengths] as a string. *)
Module ScriptedReport.

Definition unavailable (prompt : string) (n : nat) : (Exn + JSON) * nat :=
  (inl (EndpointError "503 unavailable"), S n).

Definition malformed (prompt : string) (n : nat) : (Exn + JSON) * nat :=
  (inr (JObj [("strengths", JStr "local sourcing"); ("weaknesses", JArr [])]), S n).

Definition analysis_message : AIMessage :=
  mkAIMessage "Strengths: local, cheap, simple. Weaknesses: seasonal, fragile, niche."
              [("model_name", "gemini-2.5-flash")].

(** An answer in French: 70 characters, the 60th one of two bytes. *)
Definition accented_message : AIMessage :=
  mkAIMessage "Forces : local, simple, direct. Faiblesses : fragile, limité en hiver."
              [("model_name", "gemini-2.5-flash")].

(** The report the scripted structured call leads to. *)
Definition report : AnalysisReport :=
  mkAnalysisReport ["local sourcing"; "low capex"] [].

(** The state after one run that returns, and after one run whose report
    stage is unavailable. *)
Definition after_success : PState nat :=
  (e2e_chain (Scripted.chat None) Scripted.structured Scripted.agro Scripted.fresh).2.

Definition after_unavailable : PState nat :=
  (e2e_chain (Scripted.chat None) unavailable Scripted.agro Scripted.fresh).2.

End ScriptedReport.

(** * Properties *)

(** ** Prompts *)

Lemma append_empty_r (s : string) : s +:+ "" = s.
Proof.
  induction s as [|c s IH]; [reflexivity|].
  change (String c (s +:+ "") = String c s). by f_equal.
Qed.

Lemma idea_prompt_segments :
  input_segments idea_prompt =
  [Lit "You are a startup expert and consultant. Give an innovative business idea for the sector: ";
   Var "industry";
   Lit ". Give a name and a short concept."].
Proof. vm_compute. reflexivity. Qed.

Lemma format_idea_prompt_missing (x : gmap string PyVal) :
  x !! "industry" = None → format_prompt idea_prompt x = inl (KeyError "industry").
Proof.
  intros Hx. unfold format_prompt. rewrite idea_prompt_segments.
  cbn [render]. by rewrite Hx.
Qed.

Lemma format_idea_prompt_present (x : gmap string PyVal) (v : PyVal) :
  x !! "industry" = Some v → ∃ p, format_prompt idea_prompt x = inr p.
Proof.
  intros Hx. unfold format_prompt. rewrite idea_prompt_segments.
  cbn [render]. rewrite Hx. eauto.
Qed.

Lemma format_analysis_prompt (t : string) :
  format_prompt analysis_prompt {[ "idea_text" := PStr t ]} = inr (analysis_text t).
Proof.
  unfold format_prompt.
  replace (input_segments analysis_prompt)
    with [Lit "Analyze this business idea. Give 3 strengths and 3 weaknesses: ";
          Var "idea_text"; Lit ""] by (vm_compute; reflexivity).
  cbn [render]. rewrite lookup_singleton_eq. cbn [py_str].
  unfold analysis_text. by rewrite !append_empty_r.
Qed.

Lemma format_report_prompt (t : string) :
  format_prompt report_prompt {[ "analysed_output" := PStr t ]} = inr (report_text t).
Proof.
  unfold format_prompt.
  replace (input_segments report_prompt)
    with [Lit "Based on the following analysis: ";
          Var "analysed_output";
          Lit ", generate a formal structured report extracting only the key points."]
    by (vm_compute; reflexivity).
  cbn [render]. rewrite lookup_singleton_eq. cbn [py_str].
  unfold report_text. by rewrite append_empty_r.
Qed.

(** ** Bridges *)

Lemma bridge_present (target : string) (x : gmap string PyVal) (v : PyVal) :
  x !! "output" = Some v → bridge target x = inr {[ target := v ]}.
Proof. intros Hx. unfold bridge. by rewrite Hx. Qed.

Lemma bridge_missing (target : string) (x : gmap string PyVal) :
  x !! "output" = None → bridge target x = inl (KeyError "output").
Proof. intros Hx. unfold bridge. by rewrite Hx. Qed.

(** On the dictionary the tee returns, a bridge keeps the text under its
    own key and drops the [log] entry. *)
Lemma bridge_tee (target out : string) (lg : PyVal) :
  bridge target {[ "output" := PStr out; "log" := lg ]} = inr {[ target := PStr out ]}.
Proof. apply bridge_present. by rewrite lookup_insert_eq. Qed.

(** ** Validation against [AnalysisReport] *)

Lemma mapM_json_str_fmap (l : list string) : mapM json_str (JStr <$> l) = Some l.
Proof. apply mapM_Some. induction l as [|x l IH]; by constructor. Qed.

Lemma mapM_json_str_inv (items : list JSON) (l : list string) :
  mapM json_str items = Some l → items = JStr <$> l.
Proof.
  intros H. apply mapM_Some in H.
  induction H as [|j x items l Hj _ IH]; [done|].
  destruct j; simplify_eq/=. by f_equal.
Qed.

Lemma validate_list_str_inv (field : string) (v : option JSON) (l : list string) :
  validate_list_str field v = inr l →
  match v with
  | None => l = []
  | Some j => j = JArr (JStr <$> l)
  end.
Proof.
  destruct v as [j|]; cbn; [|by intros [= <-]].
  destruct j; try done.
  destruct (mapM json_str items) as [k|] eqn:Hk; intros [= <-].
  by rewrite (mapM_json_str_inv _ _ Hk).
Qed.

Lemma validate_list_str_array (field : string) (l : list string) :
  validate_list_str field (Some (JArr (JStr <$> l))) = inr l.
Proof. cbn. by rewrite mapM_json_str_fmap. Qed.

Lemma validate_list_str_not_array (field : string) (j : JSON) :
  (∀ items, j ≠ JArr items) →
  validate_list_str field (Some j) = inl (ValidationError field).
Proof. intros Hj. destruct j; try done. by destruct (Hj items). Qed.

Lemma validate_list_str_error (field : string) (v : option JSON) (e : Exn) :
  validate_list_str field v = inl e → e = ValidationError field.
Proof.
  destruct v as [j|]; cbn; [|done].
  destruct j; try (by intros [= <-]).
  destruct (mapM json_str items); by intros [= <-].
Qed.

(** ** The pipeline, step by step *)

Section PipelineFacts.

Context {World : Type}.
Variable llm_invoke : string → World → (Exn + AIMessage) * World.
Variable llm_structured : string → World → (Exn + JSON) * World.

Local Abbreviation e2e := (e2e_chain llm_invoke llm_structured).
Local Abbreviation runs := (successful_runs llm_invoke llm_structured).

(** A stage with the tee: render, invoke, then log and parse. *)
Lemma tee_stage_eq (p : PromptTemplate) (x : gmap string PyVal) (s : PState World) :
  pipe (pipe (prompt_step p) (llm llm_invoke)) parse_and_log_output_chain x s =
  match format_prompt p x with
  | inl e => (inl e, s)
  | inr q =>
      match llm_invoke q (world s) with
      | (inl e, w) => (inl e, record_call false q w s)
      | (inr m, w) =>
          (inr {[ "output" := PStr (content m); "log" := PNone ]},
           append_log m (record_call false q w s))
      end
  end.
Proof.
  unfold pipe, bind, prompt_step, RunnableLambda, lift, llm.
  destruct (format_prompt p x) as [e|q]; [reflexivity|].
  destruct (llm_invoke q (world s)) as [[e|m] w]; reflexivity.
Qed.

(** The whole chain as one case analysis on what the endpoint answers. *)
Lemma e2e_chain_eq (inp : gmap string PyVal) (s : PState World) :
  e2e inp s =
  match format_prompt idea_prompt inp with
  | inl e => (inl e, s)
  | inr p1 =>
      match llm_invoke p1 (world s) with
      | (inl e, w1) => (inl e, record_call false p1 w1 s)
      | (inr m1, w1) =>
          let s1 := append_log m1 (record_call false p1 w1 s) in
          let p2 := analysis_text (content m1) in
          match llm_invoke p2 w1 with
          | (inl e, w2) => (inl e, record_call false p2 w2 s1)
          | (inr m2, w2) =>
              let s2 := append_log m2 (record_call false p2 w2 s1) in
              let p3 := report_text (content m2) in
              match llm_structured p3 w2 with
              | (inl e, w3) => (inl e, record_call true p3 w3 s2)
              | (inr j, w3) => (AnalysisReport_validate j, record_call true p3 w3 s2)
              end
          end
      end
  end.
Proof.
  unfold e2e_chain, idea_chain, analysis_chain, report_chain.
  unfold pipe at 1 2 3 4. unfold bind at 1 2 3 4.
  rewrite tee_stage_eq.
  destruct (format_prompt idea_prompt inp) as [e|p1]; [reflexivity|].
  destruct (llm_invoke p1 (world s)) as [[e|m1] w1]; [reflexivity|].
  unfold RunnableLambda at 1, lift at 1, bridge_idea_text. rewrite bridge_tee.
  rewrite tee_stage_eq, format_analysis_prompt. cbn [world append_log record_call].
  destruct (llm_invoke (analysis_text (content m1)) w1) as [[e|m2] w2]; [reflexivity|].
  unfold RunnableLambda at 1, lift at 1, bridge_analysed_output. rewrite bridge_tee.
  unfold pipe, bind, prompt_step, RunnableLambda, lift, llm_with_structured_output.
  rewrite format_report_prompt. cbn [world append_log record_call].
  destruct (llm_structured (report_text (content m2)) w2) as [[e|j] w3]; reflexivity.
Qed.

(** Case analysis of a run of the whole chain given as a hypothesis. *)
Ltac e2e_cases H :=
  rewrite e2e_chain_eq in H; cbv zeta in H;
  repeat case_match; simplify_eq.

(** Steps that never touch the audit list. *)
Lemma prompt_step_state (p : PromptTemplate) (x : gmap string PyVal) (s : PState World) :
  (prompt_step p x s).2 = s.
Proof. reflexivity. Qed.

Lemma llm_logs (q : string) (s : PState World) :
  logs (llm llm_invoke q s).2 = logs s.
Proof. unfold llm. by destruct (llm_invoke q (world s)) as [r w]. Qed.

Lemma structured_logs {R} (validate : JSON → Exn + R) (q : string) (s : PState World) :
  logs (llm_with_structured_output llm_structured validate q s).2 = logs s.
Proof.
  unfold llm_with_structured_output.
  by destruct (llm_structured q (world s)) as [[e|j] w].
Qed.

Lemma report_chain_logs (x : gmap string PyVal) (s : PState World) :
  logs (report_chain llm_structured x s).2 = logs s.
Proof.
  unfold report_chain, pipe, bind, prompt_step, RunnableLambda, lift.
  destruct (format_prompt report_prompt x) as [e|q]; [reflexivity|].
  apply structured_logs.
Qed.

(** A stage with the tee appends at most the message it received. *)
Lemma tee_stage_logs (p : PromptTemplate) (x : gmap string PyVal) (s : PState World) :
  logs s `prefix_of`
  logs (pipe (pipe (prompt_step p) (llm llm_invoke)) parse_and_log_output_chain x s).2.
Proof.
  rewrite tee_stage_eq.
  destruct (format_prompt p x) as [e|q]; [done|].
  destruct (llm_invoke q (world s)) as [[e|m] w]; cbn; [done|].
  by apply prefix_app_r.
Qed.

Lemma e2e_chain_logs (inp : gmap string PyVal) (s : PState World) :
  logs s `prefix_of` logs (e2e inp s).2.
Proof.
  rewrite e2e_chain_eq. cbv zeta.
  repeat case_match; cbn; try done;
    try (by apply prefix_app_r);
    rewrite <- ?(assoc_L (++)); by apply prefix_app_r.
Qed.

Lemma e2e_chain_success_logs (inp : gmap string PyVal) (s s' : PState World) (r : AnalysisReport) :
  e2e inp s = (inr r, s') →
  ∃ p1 m1 w1 m2 w2,
    format_prompt idea_prompt inp = inr p1 ∧
    llm_invoke p1 (world s) = (inr m1, w1) ∧
    llm_invoke (analysis_text (content m1)) w1 = (inr m2, w2) ∧
    logs s' = logs s ++ [m1; m2].
Proof.
  intros H. e2e_cases H.
  eexists _, _, _, _, _. repeat split; try eassumption.
  cbn. by rewrite <- (assoc_L (++)).
Qed.

(** ** The audit list across a run *)

(** C1. After one successful invocation of [e2e_chain] that starts with an
    empty audit list, the list holds exactly two entries: the raw message of
    the idea stage followed by the raw message of the analysis stage, in
    invocation order. The report stage appends nothing, whatever it is
    given. *)
Theorem audit_log_after_successful_run
    (inp : gmap string PyVal) (s s' : PState World) (r : AnalysisReport) :
  logs s = [] →
  e2e inp s = (inr r, s') →
  (∃ p1 m1 w1 m2 w2,
      format_prompt idea_prompt inp = inr p1 ∧
      llm_invoke p1 (world s) = (inr m1, w1) ∧
      llm_invoke (analysis_text (content m1)) w1 = (inr m2, w2) ∧
      logs s' = [m1; m2]) ∧
  length (logs s') = 2 ∧
  (∀ x t, logs (report_chain llm_structured x t).2 = logs t).
Proof.
  intros Hempty Hrun.
  destruct (e2e_chain_success_logs _ _ _ _ Hrun)
    as (p1 & m1 & w1 & m2 & w2 & Hp1 & Hm1 & Hm2 & Hlogs).
  rewrite Hempty in Hlogs. cbn in Hlogs.
  split; [|split].
  - exists p1, m1, w1, m2, w2. done.
  - by rewrite Hlogs.
  - apply report_chain_logs.
Qed.

(** C2 (amended). If the idea stage answers and the model invocation of
    the analysis stage raises [e] (an [EndpointError], or any other
    exception of the endpoint), then the chain raises that same [e] and
    returns no report; the audit list then holds the entries it had before
    the invocation followed by exactly one new entry, the idea stage's raw
    message, which makes exactly one entry when the list was empty before;
    and the history shows the two invocations made and no third one, the
    world being the one the failed call left. *)
Theorem stage2_failure_aborts
    (inp : gmap string PyVal) (s : PState World)
    (p1 : string) (m1 : AIMessage) (w1 w2 : World) (e : Exn) :
  format_prompt idea_prompt inp = inr p1 →
  llm_invoke p1 (world s) = (inr m1, w1) →
  llm_invoke (analysis_text (content m1)) w1 = (inl e, w2) →
  ∃ s',
    e2e inp s = (inl e, s') ∧
    logs s' = logs s ++ [m1] ∧
    length (logs s') = length (logs s) + 1 ∧
    (logs s = [] → logs s' = [m1]) ∧
    world s' = w2 ∧
    calls s' = calls s ++ [mkCall false p1 (world s) (logs s);
                           mkCall false (analysis_text (content m1)) w1
                                  (logs s ++ [m1])].
Proof.
  intros Hp1 Hm1 Hfail.
  eexists. split.
  - rewrite e2e_chain_eq, Hp1, Hm1. cbv zeta. rewrite Hfail. reflexivity.
  - cbn. split_and!.
    + done.
    + rewrite length_app. cbn. lia.
    + by intros ->.
    + done.
    + by rewrite <- (assoc_L (++)).
Qed.

(** C5. In every run of the chain, whether it returns or raises, each model
    invocation [d] that follows another invocation [c] begins in the world
    that [c]'s answer [m] left, and the audit list it sees at that moment
    already ends with [m]: the append of a stage's raw message is in place
    before the next stage's invocation begins. *)
Theorem log_entry_precedes_next_invocation
    (inp : gmap string PyVal) (s s' : PState World) (r : Exn + AnalysisReport) :
  e2e inp s = (r, s') →
  ∃ new,
    calls s' = calls s ++ new ∧
    ∀ i c d,
      new !! i = Some c → new !! S i = Some d →
      ∃ m,
        llm_invoke (call_prompt c) (call_world c) = (inr m, call_world d) ∧
        call_logs d = call_logs c ++ [m] ∧
        m ∈ call_logs d.
Proof.
  intros Hrun.
  e2e_cases Hrun; cbn [calls record_call append_log logs world].
  - exists []. split; [by rewrite app_nil_r|]. intros i c d Hc; destruct i; done.
  - eexists [_]. split; [done|]. intros [|[|i]] c d Hc Hd; done.
  - eexists [_; _]. split; [by rewrite <- (assoc_L (++))|].
    intros [|[|i]] c d Hc Hd; simplify_eq/=.
    eexists; split_and!; [eassumption | done | set_solver].
  - eexists [_; _; _]. split; [by rewrite <- !(assoc_L (++))|].
    intros [|[|[|i]]] c d Hc Hd; simplify_eq/=;
      (eexists; split_and!;
       [eassumption | by rewrite <- ?(assoc_L (++)) | set_solver]).
  - eexists [_; _; _]. split; [by rewrite <- !(assoc_L (++))|].
    intros [|[|[|i]]] c d Hc Hd; simplify_eq/=;
      (eexists; split_and!;
       [eassumption | by rewrite <- ?(assoc_L (++)) | set_solver]).
Qed.

(** C6. A bridge used as a pipeline step leaves the whole process state as
    it found it (the audit list, the world behind the endpoint and the
    history of invocations), and what it returns or raises is a function of
    the dictionary it is given alone. *)
Theorem bridge_step_is_pure (x : gmap string PyVal) (s : PState World) :
  RunnableLambda bridge_idea_text x s = (bridge "idea_text" x, s) ∧
  RunnableLambda bridge_analysed_output x s = (bridge "analysed_output" x, s) ∧
  logs (RunnableLambda bridge_idea_text x s).2 = logs s ∧
  calls (RunnableLambda bridge_idea_text x s).2 = calls s ∧
  logs (RunnableLambda bridge_analysed_output x s).2 = logs s ∧
  calls (RunnableLambda bridge_analysed_output x s).2 = calls s.
Proof. repeat split. Qed.

(** Several runs in a row only add to the list, two entries per run. *)
Lemma successful_runs_logs (n : nat) (s s' : PState World) :
  runs n s s' →
  logs s `prefix_of` logs s' ∧ length (logs s') = length (logs s) + 2 * n.
Proof.
  induction 1 as [s|n inp r s s' s'' Hrun _ [IHp IHl]].
  - split; [done | lia].
  - destruct (e2e_chain_success_logs _ _ _ _ Hrun)
      as (p1 & m1 & w1 & m2 & w2 & _ & _ & _ & Hlogs).
    split.
    + etrans; [|exact IHp]. rewrite Hlogs. by apply prefix_app_r.
    + rewrite IHl, Hlogs, length_app. cbn. lia.
Qed.

(** C8. The audit list lives in the process state that every invocation
    reads and writes. No operation of the pipeline removes or replaces an
    entry: after any run of a stage or of the whole chain, returning or
    raising, the old list is a prefix of the new one, so its length never
    decreases. After [n] successful invocations in a row the list has grown
    by exactly [2 * n] entries, and from an empty list it holds exactly
    [2 * n]: entries accumulate across invocations and are never reset. *)
Theorem audit_log_accumulates :
  (∀ x s, logs s `prefix_of` logs (idea_chain llm_invoke x s).2) ∧
  (∀ x s, logs s `prefix_of` logs (analysis_chain llm_invoke x s).2) ∧
  (∀ x s, logs s `prefix_of` logs (report_chain llm_structured x s).2) ∧
  (∀ x s, logs s `prefix_of` logs (e2e x s).2 ∧
          length (logs s) ≤ length (logs (e2e x s).2)) ∧
  (∀ n s s', runs n s s' →
     logs s `prefix_of` logs s' ∧
     length (logs s') = length (logs s) + 2 * n) ∧
  (∀ n s s', logs s = [] → runs n s s' → length (logs s') = 2 * n).
Proof.
  split_and!.
  - intros x s. apply tee_stage_logs.
  - intros x s. apply tee_stage_logs.
  - intros x s. by rewrite report_chain_logs.
  - intros x s. split; [apply e2e_chain_logs | apply prefix_length, e2e_chain_logs].
  - intros n s s'. apply successful_runs_logs.
  - intros n s s' Hempty Hruns.
    apply successful_runs_logs in Hruns as [_ ->]. by rewrite Hempty.
Qed.

(** ** The report *)

Lemma e2e_chain_success_report (inp : gmap string PyVal) (s s' : PState World) (r : AnalysisReport) :
  e2e inp s = (inr r, s') →
  ∃ p1 m1 w1 m2 w2 j,
    format_prompt idea_prompt inp = inr p1 ∧
    llm_invoke p1 (world s) = (inr m1, w1) ∧
    llm_invoke (analysis_text (content m1)) w1 = (inr m2, w2) ∧
    llm_structured (report_text (content m2)) w2 = (inr j, world s') ∧
    AnalysisReport_validate j = inr r.
Proof.
  intros H. e2e_cases H.
  eexists _, _, _, _, _, _. split_and!; try eassumption. done.
Qed.

(** C3. (1) Whenever the chain returns, what it returns is an
    [AnalysisReport] obtained by validating the object the model answered to
    the report prompt, and each of [strengths] and [weaknesses] is a list of
    strings: the empty list when the answer omits the field, and otherwise
    exactly the strings of the array the answer gives for it. (2) An answer
    whose two fields are each omitted or an array of strings validates, an
    omitted field reading as the empty list. (3) An answer that gives one of
    the two fields a value that is not an array does not validate: the
    result is a [ValidationError], not a report with a coerced field. *)
Theorem report_fields_are_text_sequences :
  (∀ inp s r s',
     e2e inp s = (inr r, s') →
     ∃ m2 w2 members,
       llm_structured (report_text (content m2)) w2 = (inr (JObj members), world s') ∧
       AnalysisReport_validate (JObj members) = inr r ∧
       match json_member "strengths" members with
       | None => strengths r = []
       | Some v => v = JArr (JStr <$> strengths r)
       end ∧
       match json_member "weaknesses" members with
       | None => weaknesses r = []
       | Some v => v = JArr (JStr <$> weaknesses r)
       end) ∧
  (∀ members ss ws,
     (json_member "strengths" members = None ∧ ss = []
      ∨ json_member "strengths" members = Some (JArr (JStr <$> ss))) →
     (json_member "weaknesses" members = None ∧ ws = []
      ∨ json_member "weaknesses" members = Some (JArr (JStr <$> ws))) →
     AnalysisReport_validate (JObj members) = inr (mkAnalysisReport ss ws)) ∧
  (∀ members field v,
     field = "strengths" ∨ field = "weaknesses" →
     json_member field members = Some v →
     (∀ items, v ≠ JArr items) →
     ∃ f, AnalysisReport_validate (JObj members) = inl (ValidationError f)).
Proof.
  split_and!.
  - intros inp s r s' Hrun.
    destruct (e2e_chain_success_report _ _ _ _ Hrun)
      as (p1 & m1 & w1 & m2 & w2 & j & _ & _ & _ & Hj & Hv).
    destruct j as [| | | | |members]; try done.
    exists m2, w2, members. split; [done|]. split; [done|].
    cbn in Hv.
    destruct (validate_list_str "strengths" _) as [e|ss] eqn:Hs; [done|].
    destruct (validate_list_str "weaknesses" _) as [e|ws] eqn:Hw; [done|].
    simplify_eq/=. split.
    + exact (validate_list_str_inv _ _ _ Hs).
    + exact (validate_list_str_inv _ _ _ Hw).
  - intros members ss ws [[Hs ->]|Hs] [[Hw ->]|Hw]; cbn;
      rewrite Hs, Hw, ?validate_list_str_array; reflexivity.
  - intros members field v [-> | ->] Hm Hv; cbn.
    + rewrite Hm, (validate_list_str_not_array _ _ Hv). eauto.
    + rewrite Hm, (validate_list_str_not_array "weaknesses" _ Hv).
      destruct (validate_list_str "strengths" _) as [e|ss] eqn:Hs; [|eauto].
      apply validate_list_str_error in Hs as ->. eauto.
Qed.

End PipelineFacts.

(** ** Runs against the scripted endpoint *)

Lemma audit_log_after_successful_run_witness :
  (∃ p1 m1 w1 m2 w2,
      format_prompt idea_prompt Scripted.agro = inr p1 ∧
      Scripted.chat None p1 (world Scripted.fresh) = (inr m1, w1) ∧
      Scripted.chat None (analysis_text (content m1)) w1 = (inr m2, w2) ∧
      logs (e2e_chain (Scripted.chat None) Scripted.structured
              Scripted.agro Scripted.fresh).2 = [m1; m2]) ∧
  length (logs (e2e_chain (Scripted.chat None) Scripted.structured
                  Scripted.agro Scripted.fresh).2) = 2 ∧
  (∀ x t, logs (report_chain Scripted.structured x t).2 = logs t).
Proof.
  refine (audit_log_after_successful_run
            (Scripted.chat None) Scripted.structured Scripted.agro Scripted.fresh _
            (mkAnalysisReport ["local sourcing"; "low capex"] []) eq_refl _).
  vm_compute. reflexivity.
Defined.

Lemma stage2_failure_aborts_witness :
  ∃ s',
    e2e_chain (Scripted.chat (Some 1)) Scripted.structured Scripted.agro Scripted.fresh
    = (inl (EndpointError "429 rate limit"), s') ∧
    logs s' = logs Scripted.fresh ++ [Scripted.idea_message] ∧
    length (logs s') = length (logs Scripted.fresh) + 1 ∧
    (logs Scripted.fresh = [] → logs s' = [Scripted.idea_message]) ∧
    world s' = 2 ∧
    calls s' = calls Scripted.fresh ++
               [mkCall false Scripted.agro_prompt (world Scripted.fresh)
                       (logs Scripted.fresh);
                mkCall false (analysis_text (content Scripted.idea_message)) 1
                       (logs Scripted.fresh ++ [Scripted.idea_message])].
Proof.
  apply (stage2_failure_aborts (Scripted.chat (Some 1)) Scripted.structured
           Scripted.agro Scripted.fresh Scripted.agro_prompt Scripted.idea_message 1 2
           (EndpointError "429 rate limit")).
  - vm_compute. reflexivity.
  - vm_compute. reflexivity.
  - vm_compute. reflexivity.
Defined.

(** One process, two invocations against an endpoint whose fifth call fails:
    the first invocation returns a report and leaves two entries; in the
    second the idea stage answers and the analysis stage's invocation
    raises, and the audit list then holds three entries, not one. *)
Lemma stage2_failure_in_second_invocation :
  e2e_chain (Scripted.chat (Some 4)) Scripted.structured Scripted.agro Scripted.fresh
  = (inr ScriptedReport.report, ScriptedReport.after_success) ∧
  Scripted.chat (Some 4) Scripted.agro_prompt (world ScriptedReport.after_success)
  = (inr ScriptedReport.analysis_message, 4) ∧
  Scripted.chat (Some 4) (analysis_text (content ScriptedReport.analysis_message)) 4
  = (inl (EndpointError "429 rate limit"), 5) ∧
  (e2e_chain (Scripted.chat (Some 4)) Scripted.structured
     Scripted.agro ScriptedReport.after_success).1
  = inl (EndpointError "429 rate limit") ∧
  logs (e2e_chain (Scripted.chat (Some 4)) Scripted.structured
          Scripted.agro ScriptedReport.after_success).2
  = [Scripted.idea_message; ScriptedReport.analysis_message;
     ScriptedReport.analysis_message] ∧
  length (logs (e2e_chain (Scripted.chat (Some 4)) Scripted.structured
                  Scripted.agro ScriptedReport.after_success).2) = 3.
Proof. split_and!; vm_compute; reflexivity. Qed.

Lemma log_entry_precedes_next_invocation_witness :
  ∃ new,
    calls (e2e_chain (Scripted.chat None) Scripted.structured
             Scripted.agro Scripted.fresh).2 = calls Scripted.fresh ++ new ∧
    ∀ i c d,
      new !! i = Some c → new !! S i = Some d →
      ∃ m,
        Scripted.chat None (call_prompt c) (call_world c) = (inr m, call_world d) ∧
        call_logs d = call_logs c ++ [m] ∧
        m ∈ call_logs d.
Proof.
  refine (log_entry_precedes_next_invocation
            (Scripted.chat None) Scripted.structured Scripted.agro Scripted.fresh _
            (inr (mkAnalysisReport ["local sourcing"; "low capex"] [])) _).
  vm_compute. reflexivity.
Defined.

Lemma audit_log_accumulates_witness :
  ∃ s',
    successful_runs (Scripted.chat None) Scripted.structured 2 Scripted.fresh s' ∧
    length (logs s') = 4.
Proof.
  pose (s1 := (e2e_chain (Scripted.chat None) Scripted.structured
                 Scripted.agro Scripted.fresh).2).
  pose (s2 := (e2e_chain (Scripted.chat None) Scripted.structured Scripted.agro s1).2).
  assert (successful_runs (Scripted.chat None) Scripted.structured 2 Scripted.fresh s2)
    as Hruns.
  { apply runs_more with (inp := Scripted.agro) (s' := s1)
      (r := mkAnalysisReport ["local sourcing"; "low capex"] []);
      [vm_compute; reflexivity|].
    apply runs_more with (inp := Scripted.agro) (s' := s2)
      (r := mkAnalysisReport ["local sourcing"; "low capex"] []);
      [vm_compute; reflexivity|].
    apply runs_none. }
  exists s2. split; [exact Hruns|].
  destruct (audit_log_accumulates (Scripted.chat None) Scripted.structured)
    as (_ & _ & _ & _ & _ & Hfresh).
  exact (Hfresh 2 Scripted.fresh s2 eq_refl Hruns).
Defined.

Lemma report_fields_are_text_sequences_witness :
  AnalysisReport_validate
    (JObj [("strengths", JArr (JStr <$> ["local sourcing"; "low capex"]))])
  = inr (mkAnalysisReport ["local sourcing"; "low capex"] []).
Proof.
  destruct (report_fields_are_text_sequences (Scripted.chat None) Scripted.structured)
    as (_ & Hvalid & _).
  apply Hvalid.
  - right. reflexivity.
  - left. split; reflexivity.
Defined.

(** ** Bridges applied twice *)

(** The first bridge turns the tee's dictionary into [{"idea_text": ...}];
    applied to that result, which has the target key and no [output], it
    raises [KeyError]. Twice is therefore not once, and a state that already
    has the target key structure is not returned unchanged. *)
Lemma bridge_twice_raises :
  bridge_idea_text Scripted.tee_output = inr Scripted.bridged ∧
  twice bridge_idea_text Scripted.tee_output = inl (KeyError "output") ∧
  bridge_idea_text Scripted.bridged = inl (KeyError "output") ∧
  twice bridge_idea_text Scripted.tee_output ≠ bridge_idea_text Scripted.tee_output ∧
  bridge_idea_text Scripted.bridged ≠ inr Scripted.bridged.
Proof.
  assert (bridge_idea_text Scripted.tee_output = inr Scripted.bridged) as H1
    by apply bridge_tee.
  assert (bridge_idea_text Scripted.bridged = inl (KeyError "output")) as H2
    by (apply bridge_missing; reflexivity).
  assert (twice bridge_idea_text Scripted.tee_output = inl (KeyError "output")) as H3
    by (unfold twice; rewrite H1; exact H2).
  split_and!; [done | done | done | by rewrite H3, H1 | by rewrite H2].
Qed.

(** C4 (amended). A bridge is a renaming of the [output] key and nothing
    else: on a state that has [output] it returns the one-entry state that
    maps the target key to that value, every other key being dropped; on a
    state without [output] it raises [KeyError]. Its own result is such a
    state, so a second application raises where the first one returned: the
    bridge is not idempotent. Both bridges of the chain are instances. *)
Theorem bridge_renames_output (target : string) (x : gmap string PyVal) :
  (∀ v, x !! "output" = Some v → bridge target x = inr {[ target := v ]}) ∧
  (x !! "output" = None → bridge target x = inl (KeyError "output")) ∧
  (target ≠ "output" →
   ∀ y, bridge target x = inr y → twice (bridge target) x = inl (KeyError "output")) ∧
  bridge_idea_text = bridge "idea_text" ∧
  bridge_analysed_output = bridge "analysed_output".
Proof.
  split_and!; try reflexivity.
  - intros v. apply bridge_present.
  - apply bridge_missing.
  - intros Hne y Hy. unfold twice. rewrite Hy.
    unfold bridge in Hy. destruct (x !! "output") as [v|]; [|done].
    injection Hy as <-. apply bridge_missing. by rewrite lookup_singleton_ne.
Qed.

Lemma bridge_renames_output_witness :
  twice (bridge "analysed_output") Scripted.tee_output = inl (KeyError "output").
Proof.
  destruct (bridge_renames_output "analysed_output" Scripted.tee_output)
    as (_ & _ & Htwice & _).
  apply (Htwice ltac:(discriminate) {[ "analysed_output" := PStr (content Scripted.idea_message) ]}).
  apply bridge_tee.
Defined.

(** ** The agent's message list *)

(** C10. [Agent.invoke] hands the graph a dictionary whose [messages] entry
    is determined by the two arguments: with no context, or with the empty
    string as context, exactly one message, the user's question as given;
    with a context that is not empty, exactly two messages, the context as a
    system message first and the user's question second. *)
Theorem invoke_messages {Response : Type}
    (graph_invoke : gmap string (list (string * string)) → Response)
    (question : string) :
  Agent.invoke graph_invoke question None
  = graph_invoke {[ "messages" := [("user", question)] ]} ∧
  Agent.invoke graph_invoke question (Some "")
  = graph_invoke {[ "messages" := [("user", question)] ]} ∧
  (∀ context, context ≠ "" →
     Agent.invoke graph_invoke question (Some context)
     = graph_invoke {[ "messages" := [("system", context); ("user", question)] ]}) ∧
  (∀ context, length (Agent.messages_of question context) = 1
              ∨ length (Agent.messages_of question context) = 2).
Proof.
  split_and!; try reflexivity.
  - intros context Hne. unfold Agent.invoke, Agent.messages_of.
    destruct (String.eqb_spec context ""); [done|reflexivity].
  - intros [c|]; unfold Agent.messages_of; [|by left].
    destruct (String.eqb c ""); [by left | by right].
Qed.

Lemma invoke_messages_witness :
  Agent.invoke (λ input, input) "How do I cut my bill?" (Some "Location: Lyon")
  = {[ "messages" := [("system", "Location: Lyon"); ("user", "How do I cut my bill?")] ]}.
Proof.
  destruct (invoke_messages (λ input, input) "How do I cut my bill?")
    as (_ & _ & Hctx & _).
  apply Hctx. discriminate.
Defined.

(** ** The judge's scores *)

Lemma true_div_bounds (a b : nat) :
  a ≤ b → 0 < b → (0 <= Judge.true_div a b <= 1)%Q.
Proof.
  intros Hab Hb. unfold Judge.true_div.
  assert (0 < inject_Z (Z.of_nat b))%Q as Hpos.
  { change 0%Q with (inject_Z 0). rewrite <- Zlt_Qlt. lia. }
  split.
  - apply Qle_shift_div_l; [exact Hpos|]. rewrite Qmult_0_l.
    change 0%Q with (inject_Z 0). rewrite <- Zle_Qle. lia.
  - apply Qle_shift_div_r; [exact Hpos|]. rewrite Qmult_1_l.
    rewrite <- Zle_Qle. lia.
Qed.

Lemma gset_size_pos (X : gset string) : X ≠ ∅ → 0 < size X.
Proof.
  intros HX. assert (size X ≠ 0); [|lia].
  apply size_non_empty_iff. intros HE. by apply HX, leibniz_equiv.
Qed.

Lemma list_to_set_same_elements (l k : list string) :
  (∀ t, t ∈ l ↔ t ∈ k) → (list_to_set l : gset string) = list_to_set k.
Proof.
  intros H. apply set_eq. intros t. rewrite !elem_of_list_to_set. apply H.
Qed.

(** C9. For every pair of lists of tool names, the dictionary returned by
    [evaluate_tool_usage] has a [TOOL_APPROPRIATENESS] and a
    [TOOL_COMPLETENESS] entry, each between 0 and 1 inclusive. With both
    lists empty the appropriateness is 1; with [actual] empty and [expected]
    not, it is 0; with [expected] empty the completeness is 1. Two calls
    whose lists have the same elements, whatever their order and
    repetitions, return the same dictionary. *)
Theorem evaluate_tool_usage_scores (actual_tools expected_tools : list string) :
  ∃ a c : Q,
    Judge.evaluate_tool_usage actual_tools expected_tools !! "TOOL_APPROPRIATENESS" = Some a ∧
    Judge.evaluate_tool_usage actual_tools expected_tools !! "TOOL_COMPLETENESS" = Some c ∧
    (0 <= a <= 1)%Q ∧
    (0 <= c <= 1)%Q ∧
    (actual_tools = [] → expected_tools = [] → a = 1%Q) ∧
    (actual_tools = [] → expected_tools ≠ [] → a = 0%Q) ∧
    (expected_tools = [] → c = 1%Q) ∧
    (∀ actual_tools' expected_tools',
       (∀ t, t ∈ actual_tools' ↔ t ∈ actual_tools) →
       (∀ t, t ∈ expected_tools' ↔ t ∈ expected_tools) →
       Judge.evaluate_tool_usage actual_tools' expected_tools'
       = Judge.evaluate_tool_usage actual_tools expected_tools).
Proof.
  unfold Judge.evaluate_tool_usage. cbv zeta.
  set (actual := list_to_set actual_tools : gset string).
  set (expected := list_to_set expected_tools : gset string).
  eexists _, _.
  split; [apply lookup_insert_eq|].
  split; [rewrite lookup_insert_ne by done; apply lookup_singleton_eq|].
  split.
  { case_decide as Ha.
    - apply true_div_bounds; [|by apply gset_size_pos].
      apply subseteq_size, intersection_subseteq_l.
    - case_decide; split; by compute. }
  split.
  { case_decide as He.
    - apply true_div_bounds; [|by apply gset_size_pos].
      apply subseteq_size, intersection_subseteq_r.
    - split; by compute. }
  split_and!.
  - intros -> ->. subst actual expected. cbn.
    rewrite decide_False by (intros H; by apply H).
    by rewrite decide_True.
  - intros -> He. subst actual expected. cbn.
    rewrite decide_False by (intros H; by apply H).
    rewrite decide_False; [done|].
    destruct expected_tools as [|t l]; [done|]. set_solver.
  - intros ->. subst expected. cbn.
    by rewrite decide_False by (intros H; by apply H).
  - intros actual_tools' expected_tools' Ha He.
    by rewrite (list_to_set_same_elements _ _ Ha), (list_to_set_same_elements _ _ He).
Qed.

Lemma evaluate_tool_usage_scores_witness :
  Judge.evaluate_tool_usage ["weather"; "prices"; "weather"] ["prices"; "solar"]
  = Judge.evaluate_tool_usage ["prices"; "weather"] ["solar"; "prices"; "solar"].
Proof.
  destruct (evaluate_tool_usage_scores ["prices"; "weather"] ["solar"; "prices"; "solar"])
    as (a & c & _ & _ & _ & _ & _ & _ & _ & Hsame).
  apply Hsame; intros t; set_solver.
Defined.

(** A worked case: of the two distinct tools called one was expected, and of
    the two expected one was called. *)
Example evaluate_tool_usage_half :
  Judge.evaluate_tool_usage ["weather"; "prices"; "weather"] ["prices"; "solar"]
  = {[ "TOOL_APPROPRIATENESS" := (1 # 2)%Q; "TOOL_COMPLETENESS" := (1 # 2)%Q ]}.
Proof. vm_compute. reflexivity. Qed.

(** ** The router *)

(** C7. On ["hello"] the router returns ["olleh"] for the action [reverse]
    and ["HELLO"] for the action [upper]. For [delete], and for every tag
    other than the two known ones, it returns the explicit [InvalidAction]
    outcome carrying the tag, which is neither a transformed text nor the
    input handed back. *)
Theorem routing_outcomes :
  Routing.run "hello" "reverse" = Routing.Transformed "olleh" ∧
  Routing.run "hello" "upper" = Routing.Transformed "HELLO" ∧
  Routing.run "hello" "delete" = Routing.InvalidAction "delete" ∧
  (∀ input action,
     action ≠ "reverse" → action ≠ "upper" →
     Routing.run input action = Routing.InvalidAction action ∧
     ∀ text, Routing.run input action ≠ Routing.Transformed text).
Proof.
  split_and!; try (vm_compute; reflexivity).
  intros input action Hr Hu. unfold Routing.run, Routing.route.
  destruct (String.eqb_spec action "reverse"); [done|].
  destruct (String.eqb_spec action "upper"); [done|].
  split; [reflexivity | discriminate].
Qed.

(** * Further properties *)

(** ** Slices *)




(** On text of one-byte characters the characters are the bytes. *)
Lemma str_len_ascii (text : string) :
  (∀ c, c ∈ String.list_ascii_of_string text → continues_char c = false) →
  str_len text = String.length text.
Proof.
  induction text as [|c rest IH]; intros H; cbn; [done|].
  rewrite (H c) by (cbn; set_solver).
  f_equal. apply IH. intros d Hd. apply H. cbn. set_solver.
Qed.

(** ** The idea prompt *)

Lemma format_idea_prompt_error (x : gmap string PyVal) (e : Exn) :
  format_prompt idea_prompt x = inl e →
  e = KeyError "industry" ∧ x !! "industry" = None.
Proof.
  unfold format_prompt. rewrite idea_prompt_segments. cbn [render].
  destruct (x !! "industry") as [v|]; [done|]. by intros [= <-].
Qed.

Section PipelineCases.

Context {World : Type}.
Variable llm_invoke : string → World → (Exn + AIMessage) * World.
Variable llm_structured : string → World → (Exn + JSON) * World.

Local Abbreviation e2e := (e2e_chain llm_invoke llm_structured).
Local Abbreviation main_block := (main llm_invoke llm_structured).

Ltac chain_cases H :=
  rewrite e2e_chain_eq in H; cbv zeta in H;
  repeat case_match; simplify_eq.

(** X1. An input without the [industry] key makes the chain raise
    [KeyError] at the first prompt: the state is returned as it was, so no
    model was invoked and nothing was logged. *)
Theorem missing_industry_raises_before_any_call
    (inp : gmap string PyVal) (s : PState World) :
  inp !! "industry" = None →
  e2e inp s = (inl (KeyError "industry"), s).
Proof.
  intros Hmiss. by rewrite e2e_chain_eq, (format_idea_prompt_missing _ Hmiss).
Qed.

(** X2. When the first model invocation raises, the chain raises the same
    exception; the audit list is as it was, and the history has grown by
    that one invocation only. *)
Theorem stage1_failure_leaves_log
    (inp : gmap string PyVal) (s : PState World) (p1 : string) (e : Exn) (w1 : World) :
  format_prompt idea_prompt inp = inr p1 →
  llm_invoke p1 (world s) = (inl e, w1) →
  ∃ s',
    e2e inp s = (inl e, s') ∧
    logs s' = logs s ∧
    world s' = w1 ∧
    calls s' = calls s ++ [mkCall false p1 (world s) (logs s)].
Proof.
  intros Hp1 Hfail. eexists. split.
  - rewrite e2e_chain_eq, Hp1, Hfail. reflexivity.
  - done.
Qed.

(** X3. When the report stage fails, because the structured call raises or
    because its answer does not validate, the chain raises that exception
    and returns no report, and the two raw messages of the earlier stages
    are in the audit list all the same. *)
Theorem report_failure_keeps_audit_trail
    (inp : gmap string PyVal) (s : PState World) (p1 : string)
    (m1 m2 : AIMessage) (w1 w2 w3 : World) (answer : Exn + JSON) (e : Exn) :
  format_prompt idea_prompt inp = inr p1 →
  llm_invoke p1 (world s) = (inr m1, w1) →
  llm_invoke (analysis_text (content m1)) w1 = (inr m2, w2) →
  llm_structured (report_text (content m2)) w2 = (answer, w3) →
  answer = inl e ∨ (∃ j, answer = inr j ∧ AnalysisReport_validate j = inl e) →
  ∃ s',
    e2e inp s = (inl e, s') ∧
    logs s' = logs s ++ [m1; m2] ∧
    length (calls s') = length (calls s) + 3.
Proof.
  intros Hp1 Hm1 Hm2 Hans Hfail. eexists. split.
  - rewrite e2e_chain_eq, Hp1, Hm1. cbv zeta. rewrite Hm2, Hans.
    destruct Hfail as [-> | (j & -> & ->)]; reflexivity.
  - cbn. split; [by rewrite <- (assoc_L (++))|].
    rewrite !length_app. cbn. lia.
Qed.

(** X4. Every exception that leaves the chain has one of three origins: the
    first prompt lacks [industry] (a [KeyError], with the state untouched);
    the chat call made last raised it; or the structured call made last
    raised it or answered an object that does not validate. The bridges and
    the later prompts never raise inside the chain. *)
Theorem e2e_chain_error_origin
    (inp : gmap string PyVal) (s s' : PState World) (e : Exn) :
  e2e inp s = (inl e, s') →
  (e = KeyError "industry" ∧ inp !! "industry" = None ∧ s' = s)
  ∨ (∃ c, last (calls s') = Some c ∧ call_structured c = false ∧
          llm_invoke (call_prompt c) (call_world c) = (inl e, world s'))
  ∨ (∃ c, last (calls s') = Some c ∧ call_structured c = true ∧
          (llm_structured (call_prompt c) (call_world c) = (inl e, world s')
           ∨ ∃ j, llm_structured (call_prompt c) (call_world c) = (inr j, world s') ∧
                  AnalysisReport_validate j = inl e)).
Proof.
  intros Hrun. chain_cases Hrun; cbn [calls record_call append_log world logs].
  - left. match goal with H : format_prompt _ _ = inl _ |- _ =>
      apply format_idea_prompt_error in H as [-> ?] end. done.
  - right; left. eexists. rewrite last_snoc. split_and!; try done.
  - right; left. eexists. rewrite last_snoc. split_and!; try done.
  - right; right. eexists. rewrite last_snoc. split_and!; try done. by left.
  - right; right. eexists. rewrite last_snoc. split_and!; try done.
    right. eauto.
Qed.

(** X5. A run that returns has made exactly three invocations, in this
    order: the chat call on the idea prompt, the chat call on the analysis
    prompt built from the text of the first answer, and the structured call
    on the report prompt built from the text of the second answer. *)
Theorem successful_run_invocations
    (inp : gmap string PyVal) (s s' : PState World) (r : AnalysisReport) :
  e2e inp s = (inr r, s') →
  ∃ p1 m1 w1 m2 w2,
    format_prompt idea_prompt inp = inr p1 ∧
    llm_invoke p1 (world s) = (inr m1, w1) ∧
    llm_invoke (analysis_text (content m1)) w1 = (inr m2, w2) ∧
    calls s' = calls s ++
      [mkCall false p1 (world s) (logs s);
       mkCall false (analysis_text (content m1)) w1 (logs s ++ [m1]);
       mkCall true (report_text (content m2)) w2 (logs s ++ [m1; m2])].
Proof.
  intros Hrun. chain_cases Hrun.
  eexists _, _, _, _, _. split_and!; try eassumption; try reflexivity.
  cbn. by rewrite <- !(assoc_L (++)).
Qed.

(** X6. In every run, returning or raising, at most three invocations are
    made, and the audit list grows by one entry less than the number of
    invocations made (by none when none is made): the last invocation of a
    run, failed or structured, is never logged. A run that returns makes
    three. *)
Theorem audit_entries_lag_invocations
    (inp : gmap string PyVal) (s s' : PState World) (r : Exn + AnalysisReport) :
  e2e inp s = (r, s') →
  ∃ k,
    k ≤ 3 ∧
    length (calls s') = length (calls s) + k ∧
    length (logs s') = length (logs s) + Nat.pred k ∧
    (∀ report, r = inr report → k = 3).
Proof.
  intros Hrun. chain_cases Hrun; cbn [calls record_call append_log world logs].
  - exists 0. split_and!; [lia | lia | lia | done].
  - exists 1. rewrite length_app. cbn. split_and!; [lia | lia | lia | done].
  - exists 2. rewrite !length_app. cbn. split_and!; [lia | lia | lia | done].
  - exists 3. rewrite !length_app. cbn. split_and!; [lia | lia | lia | done].
  - exists 3. rewrite !length_app. cbn. split_and!; [lia | lia | lia | done].
Qed.

End PipelineCases.

(** ** The execution block *)

Lemma log_lines_length (logs : list AIMessage) : length (log_lines logs) = length logs.
Proof. unfold log_lines. apply length_imap. Qed.


Section MainFacts.

Context {World : Type}.
Variable llm_invoke : string → World → (Exn + AIMessage) * World.
Variable llm_structured : string → World → (Exn + JSON) * World.

Local Abbreviation e2e := (e2e_chain llm_invoke llm_structured).
Local Abbreviation main_block := (main llm_invoke llm_structured).

(** X8. When the chain returns, the block prints the report's two lists,
    then an audit line whose count is the length of the whole audit list,
    that is the entries already there before the run plus two, then one
    snippet line per entry of the whole list; and it leaves the state the
    chain left. *)
Theorem main_reports_whole_audit_list
    (s s' : PState World) (r : AnalysisReport) :
  e2e {[ "industry" := PStr "agro" ]} s = (inr r, s') →
  main_block s =
    ([StartingLine; GraphAsciiLine; FinalReportLine;
      StrengthsLine (strengths r); WeaknessesLine (weaknesses r);
      AuditTrailLine (length (logs s) + 2)] ++ log_lines (logs s'),
     s') ∧
  length (log_lines (logs s')) = length (logs s) + 2.
Proof.
  intros Hrun.
  destruct (e2e_chain_success_logs _ _ _ _ _ _ Hrun)
    as (p1 & m1 & w1 & m2 & w2 & _ & _ & _ & Hlogs).
  assert (length (logs s') = length (logs s) + 2) as Hlen
    by (rewrite Hlogs, length_app; reflexivity).
  split.
  - unfold main. rewrite Hrun, Hlen. reflexivity.
  - by rewrite log_lines_length.
Qed.

(** X9. When the second model invocation raises, the [try] catches the
    exception: the block prints the failure line and nothing about the
    report or the audit list, while the first stage's raw message is in the
    audit list of the state it leaves. *)
Theorem main_failure_prints_no_audit
    (s : PState World) (p1 : string) (m1 : AIMessage) (w1 w2 : World) (e : Exn) :
  format_prompt idea_prompt {[ "industry" := PStr "agro" ]} = inr p1 →
  llm_invoke p1 (world s) = (inr m1, w1) →
  llm_invoke (analysis_text (content m1)) w1 = (inl e, w2) →
  (main_block s).1 = [StartingLine; GraphAsciiLine; FailedLine e] ∧
  logs (main_block s).2 = logs s ++ [m1].
Proof.
  intros Hp1 Hm1 Hfail. unfold main.
  rewrite e2e_chain_eq, Hp1, Hm1. cbv zeta. rewrite Hfail. done.
Qed.

End MainFacts.

(** ** Runs against the scripted endpoints *)

Lemma missing_industry_raises_before_any_call_witness :
  e2e_chain (Scripted.chat None) Scripted.structured
    {[ "sector" := PStr "agro" ]} Scripted.fresh
  = (inl (KeyError "industry"), Scripted.fresh).
Proof.
  apply (missing_industry_raises_before_any_call (Scripted.chat None) Scripted.structured).
  reflexivity.
Defined.

Lemma stage1_failure_leaves_log_witness :
  ∃ s',
    e2e_chain (Scripted.chat (Some 0)) Scripted.structured Scripted.agro Scripted.fresh
    = (inl (EndpointError "429 rate limit"), s') ∧
    logs s' = logs Scripted.fresh ∧
    world s' = 1 ∧
    calls s' = calls Scripted.fresh ++
               [mkCall false Scripted.agro_prompt (world Scripted.fresh)
                       (logs Scripted.fresh)].
Proof.
  apply (stage1_failure_leaves_log (Scripted.chat (Some 0)) Scripted.structured
           Scripted.agro Scripted.fresh Scripted.agro_prompt
           (EndpointError "429 rate limit") 1).
  - vm_compute. reflexivity.
  - vm_compute. reflexivity.
Defined.

Lemma report_failure_keeps_audit_trail_witness :
  ∃ s',
    e2e_chain (Scripted.chat None) ScriptedReport.malformed Scripted.agro Scripted.fresh
    = (inl (ValidationError "strengths"), s') ∧
    logs s' = logs Scripted.fresh ++
              [Scripted.idea_message; ScriptedReport.analysis_message] ∧
    length (calls s') = length (calls Scripted.fresh) + 3.
Proof.
  apply (report_failure_keeps_audit_trail (Scripted.chat None) ScriptedReport.malformed
           Scripted.agro Scripted.fresh Scripted.agro_prompt
           Scripted.idea_message ScriptedReport.analysis_message 1 2 3
           (inr (JObj [("strengths", JStr "local sourcing"); ("weaknesses", JArr [])]))
           (ValidationError "strengths")).
  - vm_compute. reflexivity.
  - vm_compute. reflexivity.
  - vm_compute. reflexivity.
  - vm_compute. reflexivity.
  - right. eexists. split; [reflexivity | vm_compute; reflexivity].
Defined.

Lemma e2e_chain_error_origin_witness :
  (EndpointError "503 unavailable" = KeyError "industry" ∧
   Scripted.agro !! "industry" = None ∧
   ScriptedReport.after_unavailable = Scripted.fresh)
  ∨ (∃ c, last (calls ScriptedReport.after_unavailable) = Some c ∧
          call_structured c = false ∧
          Scripted.chat None (call_prompt c) (call_world c)
          = (inl (EndpointError "503 unavailable"),
             world ScriptedReport.after_unavailable))
  ∨ (∃ c, last (calls ScriptedReport.after_unavailable) = Some c ∧
          call_structured c = true ∧
          (ScriptedReport.unavailable (call_prompt c) (call_world c)
           = (inl (EndpointError "503 unavailable"),
              world ScriptedReport.after_unavailable)
           ∨ ∃ j, ScriptedReport.unavailable (call_prompt c) (call_world c)
                  = (inr j, world ScriptedReport.after_unavailable) ∧
                  AnalysisReport_validate j = inl (EndpointError "503 unavailable"))).
Proof.
  apply (e2e_chain_error_origin (Scripted.chat None) ScriptedReport.unavailable
           Scripted.agro Scripted.fresh).
  vm_compute. reflexivity.
Defined.

Lemma successful_run_invocations_witness :
  ∃ p1 m1 w1 m2 w2,
    format_prompt idea_prompt Scripted.agro = inr p1 ∧
    Scripted.chat None p1 (world Scripted.fresh) = (inr m1, w1) ∧
    Scripted.chat None (analysis_text (content m1)) w1 = (inr m2, w2) ∧
    calls ScriptedReport.after_success = calls Scripted.fresh ++
      [mkCall false p1 (world Scripted.fresh) (logs Scripted.fresh);
       mkCall false (analysis_text (content m1)) w1 (logs Scripted.fresh ++ [m1]);
       mkCall true (report_text (content m2)) w2 (logs Scripted.fresh ++ [m1; m2])].
Proof.
  apply (successful_run_invocations (Scripted.chat None) Scripted.structured
           Scripted.agro Scripted.fresh ScriptedReport.after_success
           ScriptedReport.report).
  vm_compute. reflexivity.
Defined.

Lemma audit_entries_lag_invocations_witness :
  ∃ k,
    k ≤ 3 ∧
    length (calls ScriptedReport.after_unavailable) = length (calls Scripted.fresh) + k ∧
    length (logs ScriptedReport.after_unavailable)
    = length (logs Scripted.fresh) + Nat.pred k ∧
    (∀ report : AnalysisReport,
       inl (EndpointError "503 unavailable") = inr report → k = 3).
Proof.
  apply (audit_entries_lag_invocations (Scripted.chat None) ScriptedReport.unavailable
           Scripted.agro Scripted.fresh).
  vm_compute. reflexivity.
Defined.


(** A text of 70 characters in 71 bytes, whose 60th character has two
    bytes: the slice keeps 60 characters, that is 61 bytes, and the two-byte
    character whole. *)
Example slice_to_accented :
  str_len (content ScriptedReport.accented_message) = 70 ∧
  String.length (content ScriptedReport.accented_message) = 71 ∧
  slice_to 60 (content ScriptedReport.accented_message)
  = "Forces : local, simple, direct. Faiblesses : fragile, limité" ∧
  String.length (slice_to 60 (content ScriptedReport.accented_message)) = 61 ∧
  slice_to 1 "é" = "é" ∧
  str_len "é" = 1.
Proof. split_and!; vm_compute; reflexivity. Qed.

Lemma main_reports_whole_audit_list_witness :
  main (Scripted.chat None) Scripted.structured ScriptedReport.after_success =
    ([StartingLine; GraphAsciiLine; FinalReportLine;
      StrengthsLine (strengths ScriptedReport.report);
      WeaknessesLine (weaknesses ScriptedReport.report);
      AuditTrailLine (length (logs ScriptedReport.after_success) + 2)]
       ++ log_lines (logs (e2e_chain (Scripted.chat None) Scripted.structured
                             Scripted.agro ScriptedReport.after_success).2),
     (e2e_chain (Scripted.chat None) Scripted.structured
        Scripted.agro ScriptedReport.after_success).2) ∧
  length (log_lines (logs (e2e_chain (Scripted.chat None) Scripted.structured
                             Scripted.agro ScriptedReport.after_success).2))
  = length (logs ScriptedReport.after_success) + 2.
Proof.
  apply (main_reports_whole_audit_list (Scripted.chat None) Scripted.structured).
  vm_compute. reflexivity.
Defined.

Lemma main_failure_prints_no_audit_witness :
  (main (Scripted.chat (Some 1)) Scripted.structured Scripted.fresh).1
  = [StartingLine; GraphAsciiLine; FailedLine (EndpointError "429 rate limit")] ∧
  logs (main (Scripted.chat (Some 1)) Scripted.structured Scripted.fresh).2
  = logs Scripted.fresh ++ [Scripted.idea_message].
Proof.
  apply (main_failure_prints_no_audit (Scripted.chat (Some 1)) Scripted.structured
           Scripted.fresh Scripted.agro_prompt Scripted.idea_message 1 2).
  - vm_compute. reflexivity.
  - vm_compute. reflexivity.
  - vm_compute. reflexivity.
Defined.

(** ** More on the judge's scores *)

Lemma true_div_num_den (a b : nat) :
  0 < b → Judge.true_div a b = (Z.of_nat a * 1 # 1 * Pos.of_nat b)%Q.
Proof.
  intros Hb. destruct b as [|b]; [lia|].
  unfold Judge.true_div, Qdiv, Qinv, Qmult, inject_Z.
  change (Z.of_nat (S b)) with (Z.pos (Pos.of_succ_nat b)).
  cbn [Qnum Qden]. by rewrite Pos.of_nat_succ.
Qed.

Lemma true_div_eq_1 (a b : nat) : 0 < b → (Judge.true_div a b == 1)%Q ↔ a = b.
Proof.
  intros Hb. rewrite (true_div_num_den _ _ Hb). unfold Qeq. cbn [Qnum Qden].
  rewrite Pos.mul_1_l, !Z.mul_1_r, Z.mul_1_l.
  rewrite <- (positive_nat_Z (Pos.of_nat b)), Nat2Pos.id by lia. split; lia.
Qed.

Lemma true_div_eq_0 (a b : nat) : 0 < b → (Judge.true_div a b == 0)%Q ↔ a = 0.
Proof.
  intros Hb. rewrite (true_div_num_den _ _ Hb). unfold Qeq. cbn [Qnum Qden].
  rewrite Z.mul_0_l, !Z.mul_1_r. split; lia.
Qed.

Lemma true_div_le (a a' b : nat) :
  0 < b → a ≤ a' → (Judge.true_div a b <= Judge.true_div a' b)%Q.
Proof.
  intros Hb Ha. rewrite !true_div_num_den by done. unfold Qle. cbn [Qnum Qden].
  apply Z.mul_le_mono_nonneg_r; lia.
Qed.

Lemma list_to_set_empty_iff (l : list string) :
  (list_to_set l : gset string) = ∅ ↔ l = [].
Proof.
  split; [|by intros ->].
  destruct l as [|t l]; [done|]. intros H.
  assert (t ∈ (∅ : gset string)) as Hin by (rewrite <- H; set_solver).
  set_solver.
Qed.

(** The two entries of the returned dictionary. *)
Lemma evaluate_tool_usage_entries (actual_tools expected_tools : list string) (a c : Q) :
  Judge.evaluate_tool_usage actual_tools expected_tools !! "TOOL_APPROPRIATENESS" = Some a →
  Judge.evaluate_tool_usage actual_tools expected_tools !! "TOOL_COMPLETENESS" = Some c →
  a = (if decide ((list_to_set actual_tools : gset string) ≠ ∅)
       then Judge.true_div
              (size ((list_to_set actual_tools : gset string) ∩ list_to_set expected_tools))
              (size (list_to_set actual_tools : gset string))
       else if decide ((list_to_set expected_tools : gset string) = ∅) then 1%Q else 0%Q) ∧
  c = (if decide ((list_to_set expected_tools : gset string) ≠ ∅)
       then Judge.true_div
              (size ((list_to_set actual_tools : gset string) ∩ list_to_set expected_tools))
              (size (list_to_set expected_tools : gset string))
       else 1%Q).
Proof.
  unfold Judge.evaluate_tool_usage. cbv zeta.
  rewrite lookup_insert_eq, lookup_insert_ne, lookup_singleton_eq by done.
  by intros [= <-] [= <-].
Qed.

Lemma size_intersection_full (A E : gset string) : size (A ∩ E) = size A ↔ A ⊆ E.
Proof.
  split.
  - intros Hsize.
    assert (A ∩ E = A) as Heq
      by (apply set_subseteq_size_eq; [set_solver | lia]).
    set_solver.
  - intros Hsub. f_equal. apply leibniz_equiv. set_solver.
Qed.

Lemma size_intersection_full_r (A E : gset string) : size (A ∩ E) = size E ↔ E ⊆ A.
Proof. rewrite (comm_L (∩) A E). apply size_intersection_full. Qed.

Lemma size_intersection_none (A E : gset string) : size (A ∩ E) = 0 ↔ A ## E.
Proof. rewrite size_empty_iff. set_solver. Qed.

Section JudgeScores.

Variables actual_tools expected_tools : list string.

Local Abbreviation actual := (list_to_set actual_tools : gset string).
Local Abbreviation expected := (list_to_set expected_tools : gset string).

(** X10. Both scores are 1 exactly when the tools called and the tools
    expected are the same names, repetitions and order apart. *)
Theorem perfect_scores_iff_same_tools (a c : Q) :
  Judge.evaluate_tool_usage actual_tools expected_tools !! "TOOL_APPROPRIATENESS" = Some a →
  Judge.evaluate_tool_usage actual_tools expected_tools !! "TOOL_COMPLETENESS" = Some c →
  (a == 1 ∧ c == 1)%Q ↔ (∀ t, t ∈ actual_tools ↔ t ∈ expected_tools).
Proof.
  intros Ha Hc.
  destruct (evaluate_tool_usage_entries _ _ _ _ Ha Hc) as [-> ->].
  clear Ha Hc.
  assert ((∀ t, t ∈ actual_tools ↔ t ∈ expected_tools) ↔ actual ⊆ expected ∧ expected ⊆ actual)
    as -> by set_solver.
  destruct (decide (actual ≠ ∅)) as [HA|HA]; destruct (decide (expected ≠ ∅)) as [HE|HE].
  - rewrite !true_div_eq_1 by (by apply gset_size_pos).
    split; (intros [H1 H2]; split;
            [by apply size_intersection_full | by apply size_intersection_full_r]).
  - apply dec_stable in HE.
    rewrite true_div_eq_1 by (by apply gset_size_pos).
    split.
    + intros [Hsize _]. apply size_intersection_full in Hsize. set_solver.
    + intros [Hsub _]. split; [by apply size_intersection_full | done].
  - apply dec_stable in HA. rewrite decide_False by done.
    split.
    + intros [Hzero _]. by compute in Hzero.
    + intros [_ Hsub]. exfalso. set_solver.
  - apply dec_stable in HA. apply dec_stable in HE. rewrite decide_True by done.
    split; [|done]. intros _. set_solver.
Qed.

(** X11. A score is 0 in these cases only: the completeness, when some tool
    was expected and none of the expected ones was called; the
    appropriateness, when none of the tools called was expected and at
    least one of the two lists is not empty. So calling nothing when
    something was expected scores 0 on both. *)
Theorem zero_scores (a c : Q) :
  Judge.evaluate_tool_usage actual_tools expected_tools !! "TOOL_APPROPRIATENESS" = Some a →
  Judge.evaluate_tool_usage actual_tools expected_tools !! "TOOL_COMPLETENESS" = Some c →
  ((c == 0)%Q ↔ expected_tools ≠ [] ∧ ∀ t, t ∈ expected_tools → t ∉ actual_tools) ∧
  ((a == 0)%Q ↔ (actual_tools ≠ [] ∨ expected_tools ≠ []) ∧
                ∀ t, t ∈ actual_tools → t ∉ expected_tools).
Proof.
  intros Ha Hc.
  destruct (evaluate_tool_usage_entries _ _ _ _ Ha Hc) as [-> ->].
  rewrite <- !list_to_set_empty_iff.
  clear Ha Hc.
  assert ((∀ t, t ∈ expected_tools → t ∉ actual_tools) ↔ actual ## expected)
    as -> by set_solver.
  assert ((∀ t, t ∈ actual_tools → t ∉ expected_tools) ↔ actual ## expected)
    as -> by set_solver.
  split.
  - destruct (decide (expected ≠ ∅)) as [HE|HE].
    + rewrite true_div_eq_0 by (by apply gset_size_pos).
      split; [intros H; split; [done | by apply size_intersection_none]
             | intros [_ H]; by apply size_intersection_none].
    + split; [by intros H; compute in H | tauto].
  - destruct (decide (actual ≠ ∅)) as [HA|HA].
    + rewrite true_div_eq_0 by (by apply gset_size_pos).
      split; [intros H; split; [by left | by apply size_intersection_none]
             | intros [_ H]; by apply size_intersection_none].
    + apply dec_stable in HA.
      destruct (decide (expected = ∅)) as [HE|HE].
      * split; [by intros H; compute in H | tauto].
      * split; [|done]. intros _. split; [by right | set_solver].
Qed.

(** X13. Swapping the two lists swaps the two scores, with one exception:
    when nothing was called and something was expected, the appropriateness
    is 0 while the completeness of the swapped call is 1. *)
Theorem scores_swap (a c' : Q) :
  Judge.evaluate_tool_usage actual_tools expected_tools !! "TOOL_APPROPRIATENESS" = Some a →
  Judge.evaluate_tool_usage expected_tools actual_tools !! "TOOL_COMPLETENESS" = Some c' →
  (actual_tools ≠ [] ∨ expected_tools = [] → a = c') ∧
  (actual_tools = [] → expected_tools ≠ [] → a = 0%Q ∧ c' = 1%Q).
Proof.
  intros Ha Hc'.
  assert (∃ c, Judge.evaluate_tool_usage actual_tools expected_tools
               !! "TOOL_COMPLETENESS" = Some c) as [c Hc].
  { unfold Judge.evaluate_tool_usage. cbv zeta.
    rewrite lookup_insert_ne, lookup_singleton_eq by done. eauto. }
  assert (∃ a', Judge.evaluate_tool_usage expected_tools actual_tools
                !! "TOOL_APPROPRIATENESS" = Some a') as [a' Ha'].
  { unfold Judge.evaluate_tool_usage. cbv zeta. rewrite lookup_insert_eq. eauto. }
  destruct (evaluate_tool_usage_entries _ _ _ _ Ha Hc) as [-> _].
  destruct (evaluate_tool_usage_entries _ _ _ _ Ha' Hc') as [_ ->].
  rewrite <- !list_to_set_empty_iff.
  split.
  - intros [Hact | He].
    + rewrite !decide_True by done. by rewrite (comm_L (∩) expected actual).
    + case_decide as Hact.
      * by rewrite (comm_L (∩) expected actual).
      * by rewrite decide_True.
  - intros Hact He.
    rewrite (decide_False (P := actual ≠ ∅)) by (intros H; by apply H).
    split; [by rewrite decide_False|].
    rewrite decide_False; [done | intros H; by apply H].
Qed.

End JudgeScores.

(** X14. Calling more tools never lowers the completeness: if every name
    called in one evaluation is also called in the other, against the same
    expected list, the second completeness is at least the first. *)
Theorem completeness_monotone
    (actual_tools actual_tools' expected_tools : list string) (c c' : Q) :
  (∀ t, t ∈ actual_tools → t ∈ actual_tools') →
  Judge.evaluate_tool_usage actual_tools expected_tools !! "TOOL_COMPLETENESS" = Some c →
  Judge.evaluate_tool_usage actual_tools' expected_tools !! "TOOL_COMPLETENESS" = Some c' →
  (c <= c')%Q.
Proof.
  intros Hsub Hc Hc'.
  unfold Judge.evaluate_tool_usage in Hc, Hc'. cbv zeta in Hc, Hc'.
  rewrite lookup_insert_ne, lookup_singleton_eq in Hc, Hc' by done.
  injection Hc as <-. injection Hc' as <-.
  case_decide as He; [|by compute].
  apply true_div_le; [by apply gset_size_pos|].
  apply subseteq_size. set_solver.
Qed.

Lemma perfect_scores_iff_same_tools_witness :
  (2 # 2 == 1 ∧ 2 # 2 == 1)%Q ↔
  (∀ t, t ∈ ["weather"; "prices"; "weather"] ↔ t ∈ ["prices"; "weather"]).
Proof.
  apply (perfect_scores_iff_same_tools ["weather"; "prices"; "weather"]
           ["prices"; "weather"] (2 # 2)%Q (2 # 2)%Q).
  - vm_compute. reflexivity.
  - vm_compute. reflexivity.
Defined.

Lemma zero_scores_witness :
  ((0 == 0)%Q ↔ ["solar"] ≠ [] ∧ ∀ t, t ∈ ["solar"] → t ∉ @nil string) ∧
  ((0 == 0)%Q ↔ (@nil string ≠ [] ∨ ["solar"] ≠ []) ∧
                ∀ t, t ∈ @nil string → t ∉ ["solar"]).
Proof.
  apply (zero_scores [] ["solar"] 0%Q 0%Q).
  - vm_compute. reflexivity.
  - vm_compute. reflexivity.
Defined.

Lemma scores_swap_witness :
  (["weather"; "prices"] ≠ [] ∨ ["prices"; "solar"; "tariffs"] = [] →
   (1 # 2)%Q = (1 # 2)%Q) ∧
  (["weather"; "prices"] = [] → ["prices"; "solar"; "tariffs"] ≠ [] →
   (1 # 2)%Q = 0%Q ∧ (1 # 2)%Q = 1%Q).
Proof.
  apply (scores_swap ["weather"; "prices"] ["prices"; "solar"; "tariffs"]
           (1 # 2)%Q (1 # 2)%Q).
  - vm_compute. reflexivity.
  - vm_compute. reflexivity.
Defined.

Lemma completeness_monotone_witness : ((1 # 3) <= (2 # 3))%Q.
Proof.
  apply (completeness_monotone ["prices"] ["prices"; "weather"; "solar"]
           ["prices"; "solar"; "tariffs"]).
  - intros t Ht. set_solver.
  - vm_compute. reflexivity.
  - vm_compute. reflexivity.
Defined.

(** ** More on the agent's message list *)

(** X15. Whatever the arguments, the list handed to the graph ends with the
    user's question, holds no other user message, and holds a system
    message only for a context that is not empty, whose text it is: an
    empty system message is never sent. *)
Theorem messages_end_with_question (question : string) (context : option string) :
  last (Agent.messages_of question context) = Some ("user", question) ∧
  (∀ text, ("user", text) ∈ Agent.messages_of question context → text = question) ∧
  (∀ text, ("system", text) ∈ Agent.messages_of question context →
           text ≠ "" ∧ context = Some text).
Proof.
  unfold Agent.messages_of.
  destruct context as [c|]; [destruct (String.eqb_spec c "") as [->|Hc]|]; cbn.
  - split_and!; [done | set_solver | set_solver].
  - split_and!; [done | set_solver |].
    intros text Hin. apply elem_of_cons in Hin as [[= ->]|Hin]; [done|set_solver].
  - split_and!; [done | set_solver | set_solver].
Qed.
